(** * KeycloakService (src/service.ts): a shallow embedding

    The service is a facade over three client libraries.  Its two
    asynchronous operations, [initialize] and [refreshGrant], and its
    constructor are embedded below as programs of a small monad that threads
    the service object, the heap of token records, the outside world and the
    trace of calls the service makes, and that propagates exceptions.

    Each operation is run from its first statement to its return (or throw):
    the model is sequential, as the single-threaded runtime is between two
    calls that are awaited one after the other. *)

From Stdlib Require Import Ascii String ZArith.
From stdpp Require Import base option list gmap strings pretty.

Local Open Scope string_scope.

(** ** Data *)

(** [KeycloakModuleOptions] (declared in ./@types/package): the fields the
    service reads. *)
Module Options.
Record Config := { baseUrl : string; realmName : string }.
Record Credentials := { clientId : string; clientSecret : string }.
Record t := { config : Config; credentials : Credentials }.
End Options.
Abbreviation KeycloakModuleOptions := Options.t.

(** [UMAConfiguration] (declared in ./@types/uma): the fields the service
    reads.  It is an object, hence always truthy. *)
Record UMAConfiguration := {
  issuer : string;
  token_endpoint : string;
  resource_registration_endpoint : string
}.

(** openid-client's [TokenSet]: every member is optional. *)
Record TokenSet := {
  access_token : option string;
  refresh_token : option string;
  expires_at : option Z
}.

(** Token records are objects: the service holds a reference to one. *)
Abbreviation loc := positive.

(** What a JS expression of type [TokenSet | undefined | null] evaluates to. *)
Inductive JsRef :=
| Ref (l : loc)
| Undefined
| Null.

(** JS truthiness of an optional string and of an optional number. *)
Definition truthy_string (s : option string) : bool :=
  match s with
  | Some s => negb (String.eqb s "")
  | None => false
  end.

Definition truthy_number (n : option Z) : bool :=
  match n with
  | Some n => negb (Z.eqb n 0)
  | None => false
  end.

(** The objects held by the service.  The managers and the request helper
    keep what they are constructed with (their back reference to the service
    is left implicit). *)
Record RequestManager := { rm_baseUrl : string }.
Record ResourceManager := { rsm_endpoint : string }.
Record PermissionManager := { pm_endpoint : string }.

(** The adapter configuration handed to [new KeycloakConnect({}, ...)]. *)
Record Keycloak := {
  resource : string;
  realm : string;
  confidential_port : Z;
  ssl_required : string;
  auth_server_url : string;
  secret : string
}.

(** The admin client: built from the configuration; carries the bearer
    token that [setAccessToken] stores. *)
Record AdminClient := {
  ac_config : Options.Config;
  accessToken : option string
}.

Definition setAccessToken (c : AdminClient) (token : string) : AdminClient :=
  {| ac_config := ac_config c; accessToken := Some token |}.

(** The OIDC client made by [new keycloakIssuer.Client({client_id, client_secret})]. *)
Record Client := {
  client_issuer : string;
  client_id : string;
  client_secret : string
}.

Record KeycloakService := {
  tokenSet : option loc;
  issuerClient : option Client;
  baseUrl : string;
  requestManager : RequestManager;
  umaConfiguration : option UMAConfiguration;
  options : KeycloakModuleOptions;
  connect : Keycloak;
  permissionManager : option PermissionManager;
  resourceManager : option ResourceManager;
  client : AdminClient
}.

Definition set_tokenSet (v : option loc) (s : KeycloakService) : KeycloakService :=
  {| tokenSet := v; issuerClient := issuerClient s; baseUrl := baseUrl s;
     requestManager := requestManager s; umaConfiguration := umaConfiguration s;
     options := options s; connect := connect s;
     permissionManager := permissionManager s;
     resourceManager := resourceManager s; client := client s |}.

Definition set_issuerClient (v : option Client) (s : KeycloakService) : KeycloakService :=
  {| tokenSet := tokenSet s; issuerClient := v; baseUrl := baseUrl s;
     requestManager := requestManager s; umaConfiguration := umaConfiguration s;
     options := options s; connect := connect s;
     permissionManager := permissionManager s;
     resourceManager := resourceManager s; client := client s |}.

Definition set_umaConfiguration (v : option UMAConfiguration) (s : KeycloakService)
  : KeycloakService :=
  {| tokenSet := tokenSet s; issuerClient := issuerClient s; baseUrl := baseUrl s;
     requestManager := requestManager s; umaConfiguration := v;
     options := options s; connect := connect s;
     permissionManager := permissionManager s;
     resourceManager := resourceManager s; client := client s |}.

Definition set_permissionManager (v : option PermissionManager) (s : KeycloakService)
  : KeycloakService :=
  {| tokenSet := tokenSet s; issuerClient := issuerClient s; baseUrl := baseUrl s;
     requestManager := requestManager s; umaConfiguration := umaConfiguration s;
     options := options s; connect := connect s;
     permissionManager := v;
     resourceManager := resourceManager s; client := client s |}.

Definition set_resourceManager (v : option ResourceManager) (s : KeycloakService)
  : KeycloakService :=
  {| tokenSet := tokenSet s; issuerClient := issuerClient s; baseUrl := baseUrl s;
     requestManager := requestManager s; umaConfiguration := umaConfiguration s;
     options := options s; connect := connect s;
     permissionManager := permissionManager s;
     resourceManager := v; client := client s |}.

Definition set_client (v : AdminClient) (s : KeycloakService) : KeycloakService :=
  {| tokenSet := tokenSet s; issuerClient := issuerClient s; baseUrl := baseUrl s;
     requestManager := requestManager s; umaConfiguration := umaConfiguration s;
     options := options s; connect := connect s;
     permissionManager := permissionManager s;
     resourceManager := resourceManager s; client := v |}.

(** ** Exceptions and calls *)

(** A thrown (or rejected) [Error] with its message. *)
Inductive Exn := Error (message : string).

Inductive Outcome (A : Type) :=
| Normal (a : A)
| Throw (e : Exn).
Arguments Normal {A} a.
Arguments Throw {A} e.

(** The calls the two operations make on other objects, in the order they
    are made. *)
Inductive Event :=
| LoggerLog (message : string)
| LoggerError (message : string)
| LoggerVerbose (message : string)
| RequestManagerGet (path : string)
| NewResourceManager (endpoint : string)
| NewPermissionManager (endpoint : string)
| ClientAuth (clientId clientSecret grantType : string)
| IssuerDiscover (issuer : string)
| NewIssuerClient (client_id client_secret : string)
| IssuerClientGrant (clientId clientSecret grant_type : string)
| IssuerClientRefresh (refresh_token : string)
| ClientSetAccessToken (token : string).

(** The libraries and the network the service talks to.  Every awaited call
    may reject; its answer depends on the state of the world, which it may
    change. *)
Record Externals := {
  World : Type;
  (* url.resolve: throws (a URIError) on a base URL it cannot parse *)
  resolve : string -> string -> Outcome string;
  (* requestManager.get<UMAConfiguration>(path), the [data] of the response *)
  requestManager_get :
    RequestManager -> string -> World -> Outcome UMAConfiguration * World;
  (* client.auth({clientId, clientSecret, grantType}) *)
  client_auth :
    AdminClient -> string -> string -> string -> World -> Outcome AdminClient * World;
  (* Issuer.discover(issuer): the discovered issuer's identifier *)
  Issuer_discover : string -> World -> Outcome string * World;
  (* new keycloakIssuer.Client({client_id, client_secret}) *)
  Issuer_Client : string -> string -> string -> Outcome Client;
  (* issuerClient.grant({clientId, clientSecret, grant_type}) *)
  issuerClient_grant :
    Client -> string -> string -> string -> World -> Outcome TokenSet * World;
  (* issuerClient.refresh(refresh_token) *)
  issuerClient_refresh : Client -> string -> World -> Outcome TokenSet * World;
  (* tokenSet.expired(): compares the record's expiry with the clock *)
  tokenSet_expired : TokenSet -> World -> bool
}.

(** ** The monad of the operations *)

Section Service.

Context (X : Externals).

(** What an operation runs in: the service object ([this]), the heap of
    token records, the world, and the calls made so far. *)
Record Config := {
  this : KeycloakService;
  heap : gmap loc TokenSet;
  world : World X;
  trace : list Event
}.

Definition M (A : Type) : Type := Config -> Outcome A * Config.

Definition ret {A} (a : A) : M A := fun c => (Normal a, c).

Definition bind {A B} (m : M A) (f : A -> M B) : M B :=
  fun c =>
    match m c with
    | (Normal a, c') => f a c'
    | (Throw e, c') => (Throw e, c')
    end.

Notation "'let*' x ':=' m 'in' k" := (bind m (fun x => k))
  (at level 10, x name, m at level 100, k at level 200).
Notation "m >> k" := (bind m (fun _ => k))
  (at level 65, right associativity).

Definition getThis : M KeycloakService := fun c => (Normal (this c), c).

Definition modifyThis (f : KeycloakService -> KeycloakService) : M unit :=
  fun c =>
    (Normal tt,
     {| this := f (this c); heap := heap c; world := world c; trace := trace c |}).

Definition emit (e : Event) : M unit :=
  fun c =>
    (Normal tt,
     {| this := this c; heap := heap c; world := world c; trace := trace c ++ [e] |}).

(** An awaited call: the world answers and moves on. *)
Definition await {A} (call : World X -> Outcome A * World X) : M A :=
  fun c =>
    let '(r, w) := call (world c) in
    (r, {| this := this c; heap := heap c; world := w; trace := trace c |}).

(** A synchronous call that reads the world (the clock). *)
Definition observe {A} (f : World X -> A) : M A :=
  fun c => (Normal (f (world c)), c).

Definition lift {A} (r : Outcome A) : M A := fun c => (r, c).

(** The libraries answer with a new object: it gets an unused location. *)
Definition alloc (ts : TokenSet) : M loc :=
  fun c =>
    let l := fresh (dom (heap c)) in
    (Normal l,
     {| this := this c; heap := <[l := ts]> (heap c); world := world c;
        trace := trace c |}).

(** Reading through a reference.  A reference held by the service always
    points into the heap (see [wf_preserved]); the other case is there to
    make the function total. *)
Definition deref (l : loc) : M TokenSet :=
  fun c =>
    match heap c !! l with
    | Some ts => (Normal ts, c)
    | None => (Throw (Error "TypeError: dangling reference"), c)
    end.

(** ** The constructor *)

Definition constructor (options : KeycloakModuleOptions) : Outcome KeycloakService :=
  if negb (String.prefix "http" (Options.baseUrl (Options.config options))) then
    Throw (Error "Invalid base url. It should start with either http or https.")
  else
    match resolve X (Options.baseUrl (Options.config options))
            ("/auth/realms/" ++ Options.realmName (Options.config options)) with
    | Throw e => Throw e
    | Normal baseUrl =>
        match resolve X (Options.baseUrl (Options.config options)) "/auth" with
        | Throw e => Throw e
        | Normal auth_url =>
            let keycloak :=
              {| resource := Options.clientId (Options.credentials options);
                 realm := Options.realmName (Options.config options);
                 confidential_port := 0;
                 ssl_required := "all";
                 auth_server_url := auth_url;
                 secret := Options.clientSecret (Options.credentials options) |} in
            Normal
              {| tokenSet := None;
                 issuerClient := None;
                 baseUrl := baseUrl;
                 requestManager := {| rm_baseUrl := baseUrl |};
                 umaConfiguration := None;
                 options := options;
                 connect := keycloak;
                 permissionManager := None;
                 resourceManager := None;
                 client := {| ac_config := Options.config options;
                              accessToken := None |} |}
        end
    end.

(** ** initialize *)

Definition initialize : M unit :=
  let* self := getThis in
  if bool_decide (is_Some (umaConfiguration self)) then ret tt
  else
    let clientId := Options.clientId (Options.credentials (options self)) in
    let clientSecret := Options.clientSecret (Options.credentials (options self)) in
    emit (RequestManagerGet "/.well-known/uma2-configuration") >>
    let* data := await (requestManager_get X (requestManager self)
                    "/.well-known/uma2-configuration") in
    modifyThis (set_umaConfiguration (Some data)) >>
    emit (NewResourceManager (resource_registration_endpoint data)) >>
    modifyThis (set_resourceManager
                  (Some {| rsm_endpoint := resource_registration_endpoint data |})) >>
    emit (NewPermissionManager (token_endpoint data)) >>
    modifyThis (set_permissionManager
                  (Some {| pm_endpoint := token_endpoint data |})) >>
    emit (ClientAuth clientId clientSecret "client_credentials") >>
    let* self := getThis in
    let* admin := await (client_auth X (client self) clientId clientSecret
                     "client_credentials") in
    modifyThis (set_client admin) >>
    emit (IssuerDiscover (issuer data)) >>
    let* keycloakIssuer := await (Issuer_discover X (issuer data)) in
    emit (NewIssuerClient clientId clientSecret) >>
    let* cl := lift (Issuer_Client X keycloakIssuer clientId clientSecret) in
    modifyThis (set_issuerClient (Some cl)) >>
    emit (IssuerClientGrant clientId clientSecret "client_credentials") >>
    let* granted := await (issuerClient_grant X cl clientId clientSecret
                       "client_credentials") in
    let* l := alloc granted in
    modifyThis (set_tokenSet (Some l)) >>
    let* ts := deref l in
    if truthy_number (expires_at ts) then
      emit (LoggerLog ("Initial token expires at "
                         ++ pretty (default 0%Z (expires_at ts))))
    else ret tt.

(** ** refreshGrant *)

Definition refreshGrant : M JsRef :=
  let* self := getThis in
  let* fresh_enough :=
    match tokenSet self with
    | Some l =>
        let* ts := deref l in
        let* expired := observe (tokenSet_expired X ts) in
        ret (negb expired)
    | None => ret false
    end in
  if (fresh_enough : bool) then ret (from_option Ref Undefined (tokenSet self))
  else
    match tokenSet self with
    | None =>
        emit (LoggerError "Token set is missing. Could not refresh grant.") >>
        ret Null
    | Some l =>
        let* ts := deref l in
        emit (LoggerVerbose "Grant token expired, refreshing.") >>
        if negb (truthy_string (refresh_token ts)) then
          emit (LoggerError "Could not refresh token. Refresh token is missing.") >>
          ret Null
        else
          let refresh_token := default "" (refresh_token ts) in
          let* refreshed :=
            match issuerClient self with
            | Some cl =>
                emit (IssuerClientRefresh refresh_token) >>
                let* ts' := await (issuerClient_refresh X cl refresh_token) in
                let* l' := alloc ts' in
                ret (Some l')
            | None => ret None
            end in
          modifyThis (set_tokenSet refreshed) >>
          let* self := getThis in
          let* new_access_token :=
            match tokenSet self with
            | Some l' => let* ts' := deref l' in ret (access_token ts')
            | None => ret None
            end in
          (if truthy_string new_access_token then
             let token := default "" new_access_token in
             emit (ClientSetAccessToken token) >>
             let* self := getThis in
             modifyThis (set_client (setAccessToken (client self) token))
           else ret tt) >>
          let* self := getThis in
          ret (from_option Ref Undefined (tokenSet self))
    end.

(** ** Running several operations *)

Inductive Op := Initialize | RefreshGrant.

(** The configuration an operation leaves, whether it returns or throws. *)
Definition exec (op : Op) (c : Config) : Config :=
  match op with
  | Initialize => snd (initialize c)
  | RefreshGrant => snd (refreshGrant c)
  end.

(** Between two operations the world moves on by itself. *)
Definition with_world (w : World X) (c : Config) : Config :=
  {| this := this c; heap := heap c; world := w; trace := trace c |}.

Definition with_trace (t : list Event) (c : Config) : Config :=
  {| this := this c; heap := heap c; world := world c; trace := t |}.

(** [later c c']: [c'] is what some sequence of operations makes of [c]. *)
Inductive later (c : Config) : Config -> Prop :=
| later_now : later c c
| later_exec c' op w : later c c' -> later c (exec op (with_world w c')).

(** The configurations a service constructed from [opts] can be in. *)
Definition reachable (opts : KeycloakModuleOptions) (c : Config) : Prop :=
  exists s h w,
    constructor opts = Normal s /\
    later {| this := s; heap := h; world := w; trace := [] |} c.

(** The service's reference points into the heap, and a token set is only
    ever held together with the issuer client that granted it. *)
Definition wf (c : Config) : Prop :=
  (forall l, tokenSet (this c) = Some l -> is_Some (heap c !! l)) /\
  (is_Some (tokenSet (this c)) -> is_Some (issuerClient (this c))).





(** The managers exist exactly when the UMA configuration does and are
    bound to its endpoints; the issuer client is only made after the
    configuration was stored. *)
Definition managed (s : KeycloakService) : Prop :=
  (is_Some (issuerClient s) -> is_Some (umaConfiguration s)) /\
  resourceManager s =
    (fun d => {| rsm_endpoint := resource_registration_endpoint d |})
      <$> umaConfiguration s /\
  permissionManager s =
    (fun d => {| pm_endpoint := token_endpoint d |}) <$> umaConfiguration s.

(** The calls [refreshGrant] can make, and the one that goes to the network. *)
Definition refreshGrant_call (e : Event) : bool :=
  match e with
  | LoggerError _ | LoggerVerbose _ | IssuerClientRefresh _
  | ClientSetAccessToken _ => true
  | _ => false
  end.

Definition network_call (e : Event) : bool :=
  match e with
  | RequestManagerGet _ | ClientAuth _ _ _ | IssuerDiscover _
  | IssuerClientGrant _ _ _ | IssuerClientRefresh _ => true
  | _ => false
  end.

(** What the constructor hands to [new KeycloakConnect], given the resolved
    URL of the auth server. *)
Definition adapter_config (opts : KeycloakModuleOptions) (auth_url : string)
  : Keycloak :=
  {| resource := Options.clientId (Options.credentials opts);
     realm := Options.realmName (Options.config opts);
     confidential_port := 0;
     ssl_required := "all";
     auth_server_url := auth_url;
     secret := Options.clientSecret (Options.credentials opts) |}.

End Service.

Arguments this {X} c.
Arguments heap {X} c.
Arguments world {X} c.
Arguments trace {X} c.

(** ** A concrete world

    A provider that answers every call, unless it is down for
    authentication; its clock decides expiry. *)
Module Demo.

Record provider := { auth_up : bool; now : Z }.

Definition uma : UMAConfiguration :=
  {| issuer := "http://kc/auth/realms/demo";
     token_endpoint := "http://kc/auth/realms/demo/token";
     resource_registration_endpoint := "http://kc/auth/realms/demo/resource_set" |}.

Definition X : Externals :=
  {| World := provider;
     resolve := fun from to => Normal (from ++ to);
     requestManager_get := fun _ _ w => (Normal uma, w);
     client_auth := fun ac _ _ _ w =>
       if auth_up w then (Normal (setAccessToken ac "admin-0"), w)
       else (Throw (Error "401"), w);
     Issuer_discover := fun iss w => (Normal iss, w);
     Issuer_Client := fun iss id sec =>
       Normal {| client_issuer := iss; client_id := id; client_secret := sec |};
     issuerClient_grant := fun _ _ _ _ w =>
       (Normal {| access_token := Some "access-1";
                  refresh_token := Some "refresh-1";
                  expires_at := Some (now w + 60)%Z |}, w);
     issuerClient_refresh := fun _ _ w =>
       (Normal {| access_token := Some "access-2";
                  refresh_token := Some "refresh-2";
                  expires_at := Some (now w + 60)%Z |}, w);
     tokenSet_expired := fun ts w =>
       match expires_at ts with
       | Some e => (e <=? now w)%Z
       | None => false
       end |}.

Definition opts : KeycloakModuleOptions :=
  {| Options.config :=
       {| Options.baseUrl := "http://kc"; Options.realmName := "demo" |};
     Options.credentials :=
       {| Options.clientId := "app"; Options.clientSecret := "s3cret" |} |}.

(** The service just constructed from [opts] (see [Demo_constructed]). *)
Definition service : KeycloakService :=
  {| tokenSet := None; issuerClient := None;
     baseUrl := "http://kc/auth/realms/demo";
     requestManager := {| rm_baseUrl := "http://kc/auth/realms/demo" |};
     umaConfiguration := None;
     options := opts;
     connect := {| resource := "app"; realm := "demo"; confidential_port := 0;
                   ssl_required := "all"; auth_server_url := "http://kc/auth";
                   secret := "s3cret" |};
     permissionManager := None; resourceManager := None;
     client := {| ac_config := Options.config opts; accessToken := None |} |}.

Definition start (up : bool) (t : Z) : Config X :=
  {| this := service; heap := ∅;
     world := ({| auth_up := up; now := t |} : World X);
     trace := [] |}.

(** A token record that ran out at time 50, with and without refresh token. *)
Definition stale : TokenSet :=
  {| access_token := Some "access-0"; refresh_token := Some "refresh-0";
     expires_at := Some 50%Z |}.

Definition stale_no_refresh : TokenSet :=
  {| access_token := Some "access-0"; refresh_token := None;
     expires_at := Some 50%Z |}.

Definition holding (ts : TokenSet) (cl : option Client) (t : Z) : Config X :=
  {| this := set_issuerClient cl (set_tokenSet (Some 1%positive) service);
     heap := {[ 1%positive := ts ]};
     world := ({| auth_up := true; now := t |} : World X);
     trace := [] |}.

Definition at_time (t : Z) : World X := {| auth_up := true; now := t |}.

(** The service after a first [initialize] that went through at time 0. *)
Definition initialized : Config X :=
  exec X Initialize (with_world X (at_time 0) (start true 0)).

(** The service after a first [initialize] that failed to authenticate. *)
Definition failed : Config X := snd (initialize X (start false 0)).

Definition app_client : Client :=
  {| client_issuer := "http://kc/auth/realms/demo"; client_id := "app";
     client_secret := "s3cret" |}.

End Demo.

(** ** A provider that fails on cue

    The world is the script of the answers to come: every awaited call takes
    the next entry and is rejected when it is [false] or when the script has
    run out.  Every token record counts as expired, and a refreshed record
    carries no access token. *)
Module Flaky.

Definition next {A} (a : A) (w : list bool) : Outcome A * list bool :=
  match w with
  | true :: w' => (Normal a, w')
  | false :: w' => (Throw (Error "ECONNREFUSED"), w')
  | [] => (Throw (Error "ECONNREFUSED"), [])
  end.

Definition X : Externals :=
  {| World := list bool;
     resolve := fun from to => Normal (from ++ to);
     requestManager_get := fun _ _ => next Demo.uma;
     client_auth := fun ac _ _ _ => next (setAccessToken ac "admin-0");
     Issuer_discover := fun iss => next iss;
     Issuer_Client := fun iss id sec =>
       Normal {| client_issuer := iss; client_id := id; client_secret := sec |};
     issuerClient_grant := fun _ _ _ _ =>
       next {| access_token := Some "access-1";
               refresh_token := Some "refresh-1";
               expires_at := None |};
     issuerClient_refresh := fun _ _ =>
       next {| access_token := None;
               refresh_token := Some "refresh-2";
               expires_at := None |};
     tokenSet_expired := fun _ _ => true |}.

Definition start (script : list bool) : Config X :=
  {| this := Demo.service; heap := ∅; world := (script : World X); trace := [] |}.

(** The service after an [initialize] whose four awaited calls went through. *)
Definition initialized : Config X :=
  exec X Initialize (with_world X ([true; true; true; true] : World X) (start [])).

Definition holding (script : list bool) : Config X :=
  {| this := set_issuerClient (Some Demo.app_client)
               (set_tokenSet (Some 1%positive) Demo.service);
     heap := {[ 1%positive := Demo.stale ]};
     world := (script : World X);
     trace := [] |}.

End Flaky.

(** ** A provider whose [url.resolve] rejects what Node's rejects

    Node's [url.resolve] parses its base URL and percent-decodes the userinfo
    (what precedes the last [@] of the authority); a [%] there that is not
    followed by two hexadecimal digits makes it throw [URIError: URI
    malformed].  Only that failure is modelled; everything else is as in
    [Demo]. *)
Module NodeUrl.

Definition is_hex (a : ascii) : bool :=
  let n := nat_of_ascii a in
  (Nat.leb 48 n && Nat.leb n 57) || (Nat.leb 65 n && Nat.leb n 70)
  || (Nat.leb 97 n && Nat.leb n 102).

Fixpoint well_escaped (s : string) : bool :=
  match s with
  | EmptyString => true
  | String "%"%char rest =>
      match rest with
      | String a (String b rest') => is_hex a && is_hex b && well_escaped rest'
      | _ => false
      end
  | String _ rest => well_escaped rest
  end.

(** What follows the [//] of the scheme. *)
Definition after_slashes (url : string) : string :=
  match String.index 0 "//" url with
  | Some i => String.substring (i + 2) (String.length url) url
  | None => ""
  end.

(** The authority: up to the first [/], [?] or [#]. *)
Fixpoint authority (s : string) : string :=
  match s with
  | EmptyString => ""
  | String a rest =>
      if Ascii.eqb a "/" || Ascii.eqb a "?" || Ascii.eqb a "#" then ""
      else String a (authority rest)
  end.

(** What precedes the last [@], if there is one. *)
Fixpoint userinfo (s : string) : option string :=
  match s with
  | EmptyString => None
  | String a rest =>
      match userinfo rest with
      | Some u => Some (String a u)
      | None => if Ascii.eqb a "@" then Some "" else None
      end
  end.

Definition url_resolve (from to : string) : Outcome string :=
  match userinfo (authority (after_slashes from)) with
  | Some u =>
      if well_escaped u then Normal (from ++ to)
      else Throw (Error "URIError: URI malformed")
  | None => Normal (from ++ to)
  end.

Definition X : Externals :=
  {| World := World Demo.X;
     resolve := url_resolve;
     requestManager_get := requestManager_get Demo.X;
     client_auth := client_auth Demo.X;
     Issuer_discover := Issuer_discover Demo.X;
     Issuer_Client := Issuer_Client Demo.X;
     issuerClient_grant := issuerClient_grant Demo.X;
     issuerClient_refresh := issuerClient_refresh Demo.X;
     tokenSet_expired := tokenSet_expired Demo.X |}.

(** Options whose base URL starts with [http] and cannot be parsed. *)
Definition malformed : KeycloakModuleOptions :=
  {| Options.config :=
       {| Options.baseUrl := "http://%@kc"; Options.realmName := "demo" |};
     Options.credentials :=
       {| Options.clientId := "app"; Options.clientSecret := "s3cret" |} |}.

End NodeUrl.

(** * Properties *)

Lemma Demo_constructed : constructor Demo.X Demo.opts = Normal Demo.service.
Proof. reflexivity. Qed.

Section Properties.

Context (X : Externals).
Implicit Types (c : Config X) (l : loc) (ts : TokenSet).

(** Unfolds the monad's plumbing, leaving the calls on the world. *)
Ltac run :=
  unfold bind, getThis, modifyThis, emit, await, observe, lift, alloc, deref, ret;
  simpl.

(** ** refreshGrant *)

(** C1: when the service holds a token record that is not expired,
    [refreshGrant] returns the reference to that very record and leaves the
    whole configuration as it was: the service object, the heap, the world,
    and the trace (no call was made, in particular no refresh). *)
Theorem refreshGrant_returns_cached c l ts :
  tokenSet (this c) = Some l ->
  heap c !! l = Some ts ->
  tokenSet_expired X ts (world c) = false ->
  refreshGrant X c = (Normal (Ref l), c).
Proof.
  intros Hl Hts Hexp. unfold refreshGrant. run.
  rewrite Hl. run. rewrite Hts, Hexp. reflexivity.
Qed.

(** C2: when the service holds no token record, or holds an expired one
    without a usable refresh token, [refreshGrant] returns [null] without
    throwing; it only logs (the error line, after the verbose line when a
    record is held), and the service object, the heap and the world are as
    before. *)
Theorem refreshGrant_null_when_missing c :
  tokenSet (this c) = None \/
  (exists l ts,
      tokenSet (this c) = Some l /\ heap c !! l = Some ts /\
      tokenSet_expired X ts (world c) = true /\
      truthy_string (refresh_token ts) = false) ->
  refreshGrant X c =
    (Normal Null,
     with_trace X
       (trace c ++
        match tokenSet (this c) with
        | None => [LoggerError "Token set is missing. Could not refresh grant."]
        | Some _ =>
            [LoggerVerbose "Grant token expired, refreshing.";
             LoggerError "Could not refresh token. Refresh token is missing."]
        end) c).
Proof.
  intros [Hnone | (l & ts & Hl & Hts & Hexp & Hrt)].
  - unfold refreshGrant. run. rewrite Hnone. run. reflexivity.
  - unfold refreshGrant. run. rewrite Hl. run. rewrite Hts, Hexp. simpl.
    rewrite Hts, Hrt. simpl. unfold with_trace.
    rewrite <- app_assoc. reflexivity.
Qed.

Lemma truthy_string_Some (s : string) : s <> "" -> truthy_string (Some s) = true.
Proof.
  intros Hs. simpl. destruct (String.eqb_spec s ""); [contradiction | reflexivity].
Qed.

(** C5: when the held token record is expired and carries a refresh token,
    the issuer client exists and its refresh call answers with a token
    record that carries an access token, [refreshGrant] stores that new
    record, hands its access token to the admin client as bearer token, and
    returns the new record.  (Present means truthy: a non-empty string.) *)
Theorem refreshGrant_refresh_sets_bearer c l ts rt cl ts' w' tok :
  tokenSet (this c) = Some l ->
  heap c !! l = Some ts ->
  tokenSet_expired X ts (world c) = true ->
  refresh_token ts = Some rt -> rt <> "" ->
  issuerClient (this c) = Some cl ->
  issuerClient_refresh X cl rt (world c) = (Normal ts', w') ->
  access_token ts' = Some tok -> tok <> "" ->
  exists l' c',
    refreshGrant X c = (Normal (Ref l'), c') /\
    tokenSet (this c') = Some l' /\
    heap c !! l' = None /\
    heap c' !! l' = Some ts' /\
    accessToken (client (this c')) = Some tok /\
    world c' = w' /\
    trace c' = (trace c ++ [LoggerVerbose "Grant token expired, refreshing.";
                            IssuerClientRefresh rt;
                            ClientSetAccessToken tok])%list.
Proof.
  intros Hl Hts Hexp Hrt Hne Hcl Hcall Htok Htokne.
  exists (fresh (dom (heap c))). eexists. split.
  - unfold refreshGrant. run. rewrite Hl. run. rewrite Hts, Hexp. simpl.
    rewrite Hts, Hrt, (truthy_string_Some rt Hne), Hcl. simpl.
    rewrite Hcall. simpl. rewrite lookup_insert_eq, Htok.
    rewrite (truthy_string_Some tok Htokne). simpl. reflexivity.
  - simpl. repeat split; try reflexivity.
    + apply not_elem_of_dom, is_fresh.
    + apply lookup_insert_eq.
    + rewrite <- !app_assoc. reflexivity.
Qed.

(** C9: when the held token record is expired and carries a refresh token
    but the issuer client was never created, [refreshGrant] makes no refresh
    call (it only logs the verbose line), overwrites the [tokenSet] field
    with [undefined], leaves every other field (so the admin client and its
    bearer token), the heap and the world alone, and returns [undefined]
    without throwing. *)
Theorem refreshGrant_without_issuer_client c l ts :
  tokenSet (this c) = Some l ->
  heap c !! l = Some ts ->
  tokenSet_expired X ts (world c) = true ->
  truthy_string (refresh_token ts) = true ->
  issuerClient (this c) = None ->
  refreshGrant X c =
    (Normal Undefined,
     {| this := set_tokenSet None (this c);
        heap := heap c;
        world := world c;
        trace := trace c ++ [LoggerVerbose "Grant token expired, refreshing."] |}).
Proof.
  intros Hl Hts Hexp Hrt Hcl.
  unfold refreshGrant. run. rewrite Hl. run. rewrite Hts, Hexp. simpl.
  rewrite Hts, Hrt, Hcl. reflexivity.
Qed.

(** ** initialize *)

(** Splits on the answer of every call [initialize] awaits. *)
Ltac answers :=
  repeat (simpl;
    match goal with
    | |- context [requestManager_get ?X ?m ?p ?w] =>
        destruct (requestManager_get X m p w) as [[?|?] ?] eqn:?
    | |- context [client_auth ?X ?a ?i ?s ?g ?w] =>
        destruct (client_auth X a i s g w) as [[?|?] ?] eqn:?
    | |- context [Issuer_discover ?X ?i ?w] =>
        destruct (Issuer_discover X i w) as [[?|?] ?] eqn:?
    | |- context [Issuer_Client ?X ?k ?i ?s] =>
        destruct (Issuer_Client X k i s) as [?|?] eqn:?
    | |- context [issuerClient_grant ?X ?k ?i ?s ?g ?w] =>
        destruct (issuerClient_grant X k i s g w) as [[?|?] ?] eqn:?
    | |- context [issuerClient_refresh ?X ?k ?r ?w] =>
        destruct (issuerClient_refresh X k r w) as [[?|?] ?] eqn:?
    | |- context [@lookup _ _ _ _ ?l (<[?l := _]> _)] => rewrite lookup_insert_eq
    | |- context [truthy_number ?n] => destruct (truthy_number n) eqn:?
    end);
  simpl.

Lemma initialize_noop c :
  is_Some (umaConfiguration (this c)) -> initialize X c = (Normal tt, c).
Proof.
  intros Hu. unfold initialize. run.
  rewrite bool_decide_eq_true_2 by assumption. reflexivity.
Qed.

(** Runs [initialize]: the guarded return, or one case per answer. *)
Ltac init_cases c :=
  unfold initialize; run;
  let Hu := fresh "Hu" in
  destruct (decide (is_Some (umaConfiguration (this c)))) as [Hu|Hu];
  [ rewrite (bool_decide_eq_true_2 _ Hu)
  | rewrite (bool_decide_eq_false_2 _ Hu); answers ].

(** Runs [refreshGrant]: one case per branch and answer. *)
Ltac refresh_cases c :=
  unfold refreshGrant; run;
  repeat (simpl; first [ rewrite lookup_insert_eq | case_match ];
          simplify_eq);
  simpl.

(** *** What no operation touches *)

Lemma exec_options op c : options (this (exec X op c)) = options (this c).
Proof.
  destruct op; simpl.
  - init_cases c; reflexivity.
  - refresh_cases c; reflexivity.
Qed.

Lemma exec_heap op c l ts :
  heap c !! l = Some ts -> heap (exec X op c) !! l = Some ts.
Proof.
  intros Hl.
  assert (Hfresh : forall ts', <[fresh (dom (heap c)) := ts']> (heap c) !! l = Some ts).
  { intros ts'. rewrite lookup_insert_ne; [assumption|].
    intros <-. apply (is_fresh (dom (heap c))), elem_of_dom. eauto. }
  destruct op; simpl.
  - init_cases c; auto.
  - refresh_cases c; auto.
Qed.

Lemma exec_umaConfiguration op c :
  is_Some (umaConfiguration (this c)) ->
  is_Some (umaConfiguration (this (exec X op c))).
Proof.
  intros Hsome. destruct op; simpl.
  - rewrite initialize_noop by assumption. assumption.
  - refresh_cases c; assumption.
Qed.

Lemma exec_wf op c : wf X c -> wf X (exec X op c).
Proof.
  intros [Href Hcl].
  destruct op; simpl; [init_cases c | refresh_cases c].
  all: split; simpl;
    [ intros l' Hl'; simplify_eq; rewrite ?lookup_insert_eq; eauto
    | intros Hs; try (destruct Hs as [? [=]]); eauto; congruence ].
Qed.

Lemma with_world_wf w c : wf X c -> wf X (with_world X w c).
Proof. intros H. exact H. Qed.

Lemma later_wf c c' : later X c c' -> wf X c -> wf X c'.
Proof.
  induction 1 as [|c' op w _ IH]; intros Hwf; [assumption|].
  apply exec_wf, with_world_wf, IH, Hwf.
Qed.

Lemma constructor_Normal opts s :
  constructor X opts = Normal s ->
  options s = opts /\ tokenSet s = None /\ umaConfiguration s = None.
Proof.
  unfold constructor. repeat case_match; intros [= <-]. simpl. auto.
Qed.

Lemma reachable_wf opts c : reachable X opts c -> wf X c.
Proof.
  intros (s & h & w & Hs & Hlater). apply (later_wf _ _ Hlater).
  apply constructor_Normal in Hs as (_ & Hts & _).
  split; simpl; rewrite Hts; [intros ? [=] | intros [? [=]]].
Qed.

Lemma initialize_Normal_umaConfiguration c c1 :
  initialize X c = (Normal tt, c1) -> is_Some (umaConfiguration (this c1)).
Proof.
  revert c1. init_cases c; intros c1 [= <-]; simpl; eauto.
Qed.

(** C3: once a call of [initialize] has returned, a second call (whatever
    the world has become) returns at once: it makes no call at all, so the
    trace still holds the network calls of the first call only, and it
    changes nothing. *)
Theorem initialize_idempotent c c1 w :
  initialize X c = (Normal tt, c1) ->
  initialize X (with_world X w c1) = (Normal tt, with_world X w c1).
Proof.
  intros Hfirst. apply initialize_noop. simpl.
  exact (initialize_Normal_umaConfiguration _ _ Hfirst).
Qed.


(** C7: from any reachable configuration (and whatever the world has
    become), an operation leaves every token record of the heap as it is, and
    either keeps the [tokenSet] reference or makes it point to a record that
    did not exist before: a change of the token record is a replacement. *)
Theorem tokenSet_replaced_wholesale opts c0 w op :
  reachable X opts c0 ->
  let c := with_world X w c0 in
  (forall l ts, heap c !! l = Some ts -> heap (exec X op c) !! l = Some ts) /\
  (tokenSet (this (exec X op c)) = tokenSet (this c) \/
   exists l ts,
     tokenSet (this (exec X op c)) = Some l /\
     heap c !! l = None /\
     heap (exec X op c) !! l = Some ts).
Proof.
  intros Hreach c. split; [intros l ts; apply exec_heap|].
  apply reachable_wf, (with_world_wf w) in Hreach. fold c in Hreach.
  destruct Hreach as [Href Hcl]. clearbody c.
  assert (Hfresh : heap c !! fresh (dom (heap c)) = None)
    by apply not_elem_of_dom, is_fresh.
  destruct op; simpl; [init_cases c | refresh_cases c].
  all: simpl; try (left; congruence).
  all: try (right; eexists _, _; split; [reflexivity|]; split; [assumption|];
            apply lookup_insert_eq).
  (* left: an expired record with a refresh token, but no issuer client *)
  exfalso. destruct Hcl as [? [=]]. eauto.
Qed.

(** C8: in every configuration a service constructed from [opts] can be in,
    whatever operations ran and however they ended, [options] is [opts]. *)
Theorem options_immutable opts c :
  reachable X opts c -> options (this c) = opts.
Proof.
  intros (s & h & w & Hs & Hlater).
  induction Hlater as [|c' op w' _ IH]; simpl.
  - apply constructor_Normal in Hs. tauto.
  - rewrite exec_options. exact IH.
Qed.

(** *** After a failed first call *)

Lemma initialize_Throw_tokenSet c e c1 :
  initialize X c = (Throw e, c1) -> tokenSet (this c1) = tokenSet (this c).
Proof.
  revert c1. init_cases c; intros c1 [=]; subst; reflexivity.
Qed.

Lemma exec_stays_without_token op c :
  is_Some (umaConfiguration (this c)) ->
  tokenSet (this c) = None ->
  tokenSet (this (exec X op c)) = None.
Proof.
  intros Hu Hnone. destruct op; simpl.
  - rewrite initialize_noop by assumption. assumption.
  - unfold refreshGrant. run. rewrite Hnone. simpl. assumption.
Qed.

Lemma later_stays_without_token c c' :
  later X c c' ->
  is_Some (umaConfiguration (this c)) ->
  tokenSet (this c) = None ->
  is_Some (umaConfiguration (this c')) /\ tokenSet (this c') = None.
Proof.
  induction 1 as [|c' op w _ IH]; intros Hu Hnone; [auto|].
  destruct (IH Hu Hnone) as [Hu' Hnone']. split.
  - apply exec_umaConfiguration. exact Hu'.
  - apply exec_stays_without_token; assumption.
Qed.

(** C10: the guard of [initialize] looks at the UMA configuration only.
    When a call on a service without token record throws after it has stored
    the UMA configuration, then after any further operations, in any world,
    a call of [initialize] returns at once without making a call, and the
    service still has no token record. *)
Theorem initialize_failure_is_permanent c e c1 c2 w :
  tokenSet (this c) = None ->
  initialize X c = (Throw e, c1) ->
  is_Some (umaConfiguration (this c1)) ->
  later X c1 c2 ->
  initialize X (with_world X w c2) = (Normal tt, with_world X w c2) /\
  tokenSet (this c2) = None.
Proof.
  intros Hnone Hthrow Hu Hlater.
  apply initialize_Throw_tokenSet in Hthrow. rewrite Hnone in Hthrow.
  destruct (later_stays_without_token _ _ Hlater Hu Hthrow) as [Hu2 Hnone2].
  split; [|assumption]. apply initialize_noop. exact Hu2.
Qed.

(** ** The constructor *)

(** C4 (as amended): when the base URL does not start with [http] (which
    covers [https]) the constructor throws its own error; when it does, the
    constructor checks nothing else itself: it returns a service holding the
    options as soon as the two calls of [url.resolve] return, and what it
    throws otherwise is what [url.resolve] threw. *)
Theorem constructor_checks_prefix_then_resolves opts :
  let url := Options.baseUrl (Options.config opts) in
  let realm_path := "/auth/realms/" ++ Options.realmName (Options.config opts) in
  (String.prefix "http" url = false ->
   constructor X opts =
     Throw (Error "Invalid base url. It should start with either http or https.")) /\
  (String.prefix "http" url = true ->
   (forall base auth_url,
       resolve X url realm_path = Normal base ->
       resolve X url "/auth" = Normal auth_url ->
       exists s,
         constructor X opts = Normal s /\ options s = opts /\
         baseUrl s = base /\ auth_server_url (connect s) = auth_url) /\
   (forall e,
       constructor X opts = Throw e ->
       resolve X url realm_path = Throw e \/ resolve X url "/auth" = Throw e) /\
   (forall s,
       constructor X opts = Normal s ->
       resolve X url realm_path = Normal (baseUrl s) /\
       resolve X url "/auth" = Normal (auth_server_url (connect s)))).
Proof.
  intros url realm_path. unfold constructor. fold url realm_path.
  destruct (String.prefix "http" url); simpl.
  - split; [discriminate|]. intros _.
    destruct (resolve X url realm_path) as [b|e1];
      destruct (resolve X url "/auth") as [a|e2].
    all: split; [intros ? ? [= <-] [= <-]; simpl; eauto|].
    all: split; [intros ? [= <-]; auto | intros ? [= <-]; simpl; auto].
  - split; [reflexivity | discriminate].
Qed.

(** ** Further properties of initialize *)

(** X1: when the five calls of a first [initialize] all answer, it returns, and
    the service then holds: the configuration fetched, the two managers bound
    to its endpoints, the admin client as authentication left it (the granted
    access token is not handed to it), the issuer client made from the
    discovered issuer, and a reference to a new record holding the grant. *)
Theorem initialize_complete c data w1 admin w2 iss w3 cl granted w4 :
  let clientId := Options.clientId (Options.credentials (options (this c))) in
  let clientSecret := Options.clientSecret (Options.credentials (options (this c))) in
  umaConfiguration (this c) = None ->
  requestManager_get X (requestManager (this c))
    "/.well-known/uma2-configuration" (world c) = (Normal data, w1) ->
  client_auth X (client (this c)) clientId clientSecret "client_credentials" w1
    = (Normal admin, w2) ->
  Issuer_discover X (issuer data) w2 = (Normal iss, w3) ->
  Issuer_Client X iss clientId clientSecret = Normal cl ->
  issuerClient_grant X cl clientId clientSecret "client_credentials" w3
    = (Normal granted, w4) ->
  exists c',
    initialize X c = (Normal tt, c') /\
    umaConfiguration (this c') = Some data /\
    resourceManager (this c')
      = Some {| rsm_endpoint := resource_registration_endpoint data |} /\
    permissionManager (this c') = Some {| pm_endpoint := token_endpoint data |} /\
    client (this c') = admin /\
    issuerClient (this c') = Some cl /\
    tokenSet (this c') = Some (fresh (dom (heap c))) /\
    heap c' = <[fresh (dom (heap c)) := granted]> (heap c) /\
    world c' = w4.
Proof.
  intros clientId clientSecret Hnone Hget Hauth Hdisc Hcl Hgrant.
  unfold initialize. run.
  rewrite bool_decide_eq_false_2 by (rewrite Hnone; apply is_Some_None).
  rewrite Hget. simpl. fold clientId clientSecret. rewrite Hauth. simpl.
  rewrite Hdisc. simpl. rewrite Hcl. simpl. rewrite Hgrant. simpl.
  rewrite lookup_insert_eq.
  destruct (truthy_number (expires_at granted)); simpl;
    eexists; (split; [reflexivity|]); simpl; repeat split.
Qed.

(** X2: when the fetch of the UMA configuration is rejected, [initialize]
    rejects with the same error after that one call and leaves the service
    object and the heap as they were: nothing is cached, a later call
    starts over. *)
Theorem initialize_fetch_rejected c e w1 :
  umaConfiguration (this c) = None ->
  requestManager_get X (requestManager (this c))
    "/.well-known/uma2-configuration" (world c) = (Throw e, w1) ->
  initialize X c =
    (Throw e,
     {| this := this c; heap := heap c; world := w1;
        trace := trace c ++ [RequestManagerGet "/.well-known/uma2-configuration"] |}).
Proof.
  intros Hnone Hget. unfold initialize. run.
  rewrite bool_decide_eq_false_2 by (rewrite Hnone; apply is_Some_None).
  rewrite Hget. reflexivity.
Qed.

(** X3: [initialize] has no error of its own: what it throws is what one of its
    five calls was rejected with. *)
Theorem initialize_throws_what_a_call_threw c e c1 :
  let clientId := Options.clientId (Options.credentials (options (this c))) in
  let clientSecret := Options.clientSecret (Options.credentials (options (this c))) in
  initialize X c = (Throw e, c1) ->
  (exists w, fst (requestManager_get X (requestManager (this c))
                    "/.well-known/uma2-configuration" w) = Throw e) \/
  (exists a w, fst (client_auth X a clientId clientSecret
                      "client_credentials" w) = Throw e) \/
  (exists i w, fst (Issuer_discover X i w) = Throw e) \/
  (exists i, Issuer_Client X i clientId clientSecret = Throw e) \/
  (exists k w, fst (issuerClient_grant X k clientId clientSecret
                      "client_credentials" w) = Throw e).
Proof.
  intros clientId clientSecret. subst clientId clientSecret.
  revert c1. init_cases c; intros c1 [=]; subst.
  all: match goal with
       | H : requestManager_get _ _ _ _ = (Throw _, _) |- _ =>
           left; eexists; rewrite H; reflexivity
       | H : client_auth _ _ _ _ _ _ = (Throw _, _) |- _ =>
           right; left; eexists _, _; rewrite H; reflexivity
       | H : Issuer_discover _ _ _ = (Throw _, _) |- _ =>
           do 2 right; left; eexists _, _; rewrite H; reflexivity
       | H : Issuer_Client _ _ _ _ = Throw _ |- _ =>
           do 3 right; left; eexists; exact H
       | H : issuerClient_grant _ _ _ _ _ _ = (Throw _, _) |- _ =>
           do 4 right; eexists _, _; rewrite H; reflexivity
       end.
Qed.

(** ** Further properties of refreshGrant *)

(** X4: when the refresh call is rejected, [refreshGrant] rejects with the same
    error; the service object and the heap are as before, so the expired
    record is still held and its refresh token can be tried again. *)
Theorem refreshGrant_refresh_rejected c l ts cl e w' :
  tokenSet (this c) = Some l ->
  heap c !! l = Some ts ->
  tokenSet_expired X ts (world c) = true ->
  truthy_string (refresh_token ts) = true ->
  issuerClient (this c) = Some cl ->
  issuerClient_refresh X cl (default "" (refresh_token ts)) (world c) = (Throw e, w') ->
  refreshGrant X c =
    (Throw e,
     {| this := this c; heap := heap c; world := w';
        trace := trace c ++ [LoggerVerbose "Grant token expired, refreshing.";
                             IssuerClientRefresh (default "" (refresh_token ts))] |}).
Proof.
  intros Hl Hts Hexp Hrt Hcl Hcall.
  unfold refreshGrant. run. rewrite Hl. run. rewrite Hts, Hexp. simpl.
  rewrite Hts, Hrt, Hcl. simpl. rewrite Hcall. simpl.
  rewrite <- app_assoc. reflexivity.
Qed.

(** X5: when the refresh answers with a record that carries no access token
    (absent or empty), the record is stored and returned all the same, and
    the admin client keeps the bearer token it had: [setAccessToken] is not
    called. *)
Theorem refreshGrant_refresh_without_access_token c l ts cl ts' w' :
  tokenSet (this c) = Some l ->
  heap c !! l = Some ts ->
  tokenSet_expired X ts (world c) = true ->
  truthy_string (refresh_token ts) = true ->
  issuerClient (this c) = Some cl ->
  issuerClient_refresh X cl (default "" (refresh_token ts)) (world c)
    = (Normal ts', w') ->
  truthy_string (access_token ts') = false ->
  refreshGrant X c =
    (Normal (Ref (fresh (dom (heap c)))),
     {| this := set_tokenSet (Some (fresh (dom (heap c)))) (this c);
        heap := <[fresh (dom (heap c)) := ts']> (heap c);
        world := w';
        trace := trace c ++ [LoggerVerbose "Grant token expired, refreshing.";
                             IssuerClientRefresh (default "" (refresh_token ts))] |}).
Proof.
  intros Hl Hts Hexp Hrt Hcl Hcall Hno.
  unfold refreshGrant. run. rewrite Hl. run. rewrite Hts, Hexp. simpl.
  rewrite Hts, Hrt, Hcl. simpl. rewrite Hcall. simpl.
  rewrite lookup_insert_eq, Hno. simpl.
  rewrite <- app_assoc. reflexivity.
Qed.

(** X6: whatever [refreshGrant] returns is what the service holds afterwards: a
    reference is the [tokenSet] field and points to a record, [undefined]
    means the field is empty, and [null] means nothing but the log changed. *)
Theorem refreshGrant_returns_current c r c' :
  refreshGrant X c = (Normal r, c') ->
  match r with
  | Ref l => tokenSet (this c') = Some l /\ is_Some (heap c' !! l)
  | Undefined => tokenSet (this c') = None
  | Null => this c' = this c /\ heap c' = heap c /\ world c' = world c
  end.
Proof.
  revert r c'. refresh_cases c; intros r c' [=]; subst; simpl; auto.
  all: split; [try reflexivity; try assumption | rewrite ?lookup_insert_eq; eauto].
Qed.

(** X7: [refreshGrant] only logs, refreshes and sets the bearer token: it never
    fetches, authenticates, discovers or asks for a new grant, and it makes
    at most one call to the network. *)
Theorem refreshGrant_calls c :
  exists calls,
    trace (snd (refreshGrant X c)) = (trace c ++ calls)%list /\
    forallb refreshGrant_call calls = true /\
    length (filter (fun e => network_call e = true) calls) <= 1.
Proof.
  refresh_cases c.
  all: rewrite <- ?app_assoc; simpl.
  all: try (exists []; rewrite app_nil_r; repeat split; simpl; lia).
  all: eexists; split; [reflexivity|]; split; [reflexivity|]; simpl; lia.
Qed.

(** ** Invariants of the service *)

Lemma exec_managed op c : managed (this c) -> managed (this (exec X op c)).
Proof.
  intros (Hcl & Hrm & Hpm).
  destruct op; simpl; [init_cases c | refresh_cases c].
  all: repeat split; simpl; eauto.
  (* an expired record with a refresh token, but no issuer client *)
  match goal with
  | H : issuerClient (this c) = None |- _ => rewrite H; exact Hcl
  end.
Qed.

Lemma exec_fixed_fields op c :
  baseUrl (this (exec X op c)) = baseUrl (this c) /\
  requestManager (this (exec X op c)) = requestManager (this c) /\
  connect (this (exec X op c)) = connect (this c).
Proof.
  destruct op; simpl; [init_cases c | refresh_cases c]; auto.
Qed.

Lemma reachable_managed opts c : reachable X opts c -> managed (this c).
Proof.
  intros (s & h & w & Hs & Hlater).
  induction Hlater as [|c' op w' _ IH]; simpl.
  - unfold constructor in Hs. repeat case_match; simplify_eq.
    repeat split. simpl. intros [? [=]].
  - apply (exec_managed op (with_world X w' c')). exact IH.
Qed.

(** X8: in every configuration a constructed service can be in: the managers
    exist exactly when the UMA configuration is stored and are bound to its
    endpoints; an issuer client exists only with the configuration; and a
    token record is held only with the issuer client, and is in the heap. *)
Theorem reachable_invariant opts c :
  reachable X opts c ->
  managed (this c) /\
  (is_Some (tokenSet (this c)) -> is_Some (issuerClient (this c))) /\
  (forall l, tokenSet (this c) = Some l -> is_Some (heap c !! l)).
Proof.
  intros Hreach. split.
  - exact (reachable_managed _ _ Hreach).
  - apply reachable_wf in Hreach as [Href Hcl]. auto.
Qed.

(** X9: the fields the constructor computes from the options stay what it made
    them: the realm base URL as [url.resolve] gave it, the request manager on
    that URL, and the adapter configuration with the resolved auth URL. *)
Theorem constructed_fields_fixed opts c :
  reachable X opts c ->
  resolve X (Options.baseUrl (Options.config opts))
    ("/auth/realms/" ++ Options.realmName (Options.config opts))
    = Normal (baseUrl (this c)) /\
  requestManager (this c) = {| rm_baseUrl := baseUrl (this c) |} /\
  resolve X (Options.baseUrl (Options.config opts)) "/auth"
    = Normal (auth_server_url (connect (this c))) /\
  connect (this c) = adapter_config opts (auth_server_url (connect (this c))).
Proof.
  intros (s & h & w & Hs & Hlater).
  induction Hlater as [|c' op w' _ IH]; simpl.
  - unfold constructor in Hs. repeat case_match; simplify_eq. simpl. auto.
  - destruct (exec_fixed_fields op (with_world X w' c')) as (-> & -> & ->).
    exact IH.
Qed.

(** X10: the UMA configuration is fetched once: after it is stored, no operation
    replaces it. *)
Theorem umaConfiguration_cached c c' data :
  later X c c' ->
  umaConfiguration (this c) = Some data ->
  umaConfiguration (this c') = Some data.
Proof.
  induction 1 as [|c' op w _ IH]; intros Hdata; [assumption|].
  specialize (IH Hdata). destruct op; simpl.
  - rewrite initialize_noop by (simpl; eauto). exact IH.
  - refresh_cases (with_world X w c'); exact IH.
Qed.

Lemma refreshGrant_wf_not_undefined c :
  wf X c -> fst (refreshGrant X c) <> Normal Undefined.
Proof.
  intros [Href Hcl]. refresh_cases c; try discriminate.
  destruct Hcl as [? [=]]. eauto.
Qed.

Lemma refreshGrant_wf_Throw c e c1 :
  wf X c ->
  refreshGrant X c = (Throw e, c1) ->
  this c1 = this c /\ heap c1 = heap c /\
  exists cl rt w',
    issuerClient (this c) = Some cl /\
    issuerClient_refresh X cl rt (world c) = (Throw e, w').
Proof.
  intros [Href Hcl]. revert c1.
  refresh_cases c; intros ? [=]; subst; simpl.
  - simpl in *. repeat split. eauto.
  - (* the held reference points into the heap *)
    exfalso. destruct (Href _ eq_refl) as [? ?]. congruence.
Qed.

(** X11: from a configuration a constructed service can be in, [refreshGrant]
    never returns [undefined]: a token record is only held together with the
    issuer client that can refresh it. *)
Theorem refreshGrant_never_undefined opts c w :
  reachable X opts c ->
  fst (refreshGrant X (with_world X w c)) <> Normal Undefined.
Proof.
  intros Hreach.
  apply refreshGrant_wf_not_undefined, with_world_wf, (reachable_wf opts), Hreach.
Qed.

(** X12: from a configuration a constructed service can be in, [refreshGrant]
    throws only what the refresh call was rejected with; the service object
    and the heap are then as before. *)
Theorem refreshGrant_throws_what_refresh_threw opts c w e c1 :
  reachable X opts c ->
  refreshGrant X (with_world X w c) = (Throw e, c1) ->
  this c1 = this c /\ heap c1 = heap c /\
  exists cl rt w',
    issuerClient (this c) = Some cl /\
    issuerClient_refresh X cl rt w = (Throw e, w').
Proof.
  intros Hreach Hthrow.
  apply refreshGrant_wf_Throw in Hthrow; [exact Hthrow|].
  apply with_world_wf, (reachable_wf opts), Hreach.
Qed.

(** X13: as long as no UMA configuration was stored (no [initialize] got past
    its fetch), a constructed service holds no token record and
    [refreshGrant] answers [null] with the error line, changing nothing
    else. *)
Theorem refreshGrant_before_initialize opts c w :
  reachable X opts c ->
  umaConfiguration (this c) = None ->
  refreshGrant X (with_world X w c) =
    (Normal Null,
     {| this := this c; heap := heap c; world := w;
        trace := trace c
                   ++ [LoggerError "Token set is missing. Could not refresh grant."] |}).
Proof.
  intros Hreach Hnone.
  assert (Hts : tokenSet (this c) = None).
  { destruct (tokenSet (this c)) as [l|] eqn:Hl; [exfalso|reflexivity].
    destruct (reachable_wf _ _ Hreach) as [_ Hcl].
    destruct (reachable_managed _ _ Hreach) as (Hu & _). rewrite Hl in Hcl.
    destruct (Hu (Hcl (mk_is_Some _ _ eq_refl))) as [? ?]. congruence. }
  unfold refreshGrant. run. rewrite Hts. reflexivity.
Qed.

(** X14: [refreshGrant] changes the admin client in one way only: it hands it the
    access token of the record the service holds after the refresh. *)
Theorem refreshGrant_bearer_is_current c :
  let c' := snd (refreshGrant X c) in
  client (this c') = client (this c) \/
  exists l ts tok,
    tokenSet (this c') = Some l /\
    heap c' !! l = Some ts /\
    access_token ts = Some tok /\
    client (this c') = setAccessToken (client (this c)) tok.
Proof.
  refresh_cases c; try (left; reflexivity).
  right.
  match goal with
  | H : truthy_string (access_token ?t) = true |- _ =>
      destruct (access_token t) as [tok|] eqn:Htok; [|discriminate H];
      exists (fresh (dom (heap c))), t, tok
  end.
  simpl. rewrite lookup_insert_eq. auto.
Qed.

(** X15: a first [initialize] that returns leaves the service holding a new
    record, and as long as that record is not expired [refreshGrant] returns
    it without making a call. *)
Theorem initialize_then_refreshGrant c w :
  umaConfiguration (this c) = None ->
  fst (initialize X c) = Normal tt ->
  let c1 := snd (initialize X c) in
  exists l granted,
    tokenSet (this c1) = Some l /\
    heap c !! l = None /\
    heap c1 !! l = Some granted /\
    (tokenSet_expired X granted w = false ->
     refreshGrant X (with_world X w c1) = (Normal (Ref l), with_world X w c1)).
Proof.
  intros Hnone.
  assert (Hfresh : heap c !! fresh (dom (heap c)) = None)
    by apply not_elem_of_dom, is_fresh.
  init_cases c; intros [=].
  { rewrite Hnone in Hu. destruct Hu as [? [=]]. }
  all: eexists _, _; split; [reflexivity|]; split; [exact Hfresh|]; split;
    [ apply lookup_insert_eq | ].
  all: intros Hexp; unfold refreshGrant; run; rewrite lookup_insert_eq; simpl;
    rewrite Hexp; reflexivity.
Qed.

End Properties.

(** * The theorems at work on the concrete world *)

Lemma Demo_reachable_initialized : reachable Demo.X Demo.opts Demo.initialized.
Proof.
  exists Demo.service, ∅, ({| Demo.auth_up := true; Demo.now := 0 |} : World Demo.X).
  split; [reflexivity|]. apply later_exec, later_now.
Defined.

(** C4 as it was stated fails: a base URL that starts with [http] and that
    [url.resolve] cannot parse makes the constructor throw. *)
Lemma constructor_rejects_prefixed_url :
  String.prefix "http" (Options.baseUrl (Options.config NodeUrl.malformed)) = true /\
  constructor NodeUrl.X NodeUrl.malformed = Throw (Error "URIError: URI malformed") /\
  ~ (exists s, constructor NodeUrl.X NodeUrl.malformed = Normal s).
Proof.
  split; [reflexivity|]. split; [reflexivity|]. intros [s [=]].
Qed.

Lemma constructor_checks_prefix_then_resolves_witness :
  String.prefix "http" (Options.baseUrl (Options.config Demo.opts)) = true /\
  (forall base auth_url,
      resolve Demo.X "http://kc" "/auth/realms/demo" = Normal base ->
      resolve Demo.X "http://kc" "/auth" = Normal auth_url ->
      exists s,
        constructor Demo.X Demo.opts = Normal s /\ options s = Demo.opts /\
        baseUrl s = base /\ auth_server_url (connect s) = auth_url) /\
  (forall e,
      constructor Demo.X Demo.opts = Throw e ->
      resolve Demo.X "http://kc" "/auth/realms/demo" = Throw e \/
      resolve Demo.X "http://kc" "/auth" = Throw e) /\
  (forall s,
      constructor Demo.X Demo.opts = Normal s ->
      resolve Demo.X "http://kc" "/auth/realms/demo" = Normal (baseUrl s) /\
      resolve Demo.X "http://kc" "/auth" = Normal (auth_server_url (connect s))).
Proof.
  split; [reflexivity|].
  apply (constructor_checks_prefix_then_resolves Demo.X Demo.opts). reflexivity.
Defined.

Lemma refreshGrant_returns_cached_witness :
  let c := Demo.holding Demo.stale None 10 in
  tokenSet (this c) = Some 1%positive /\
  heap c !! 1%positive = Some Demo.stale /\
  tokenSet_expired Demo.X Demo.stale (world c) = false /\
  refreshGrant Demo.X c = (Normal (Ref 1%positive), c).
Proof.
  intros c. do 3 (split; [reflexivity|]).
  apply (refreshGrant_returns_cached Demo.X c 1%positive Demo.stale); reflexivity.
Defined.

Lemma refreshGrant_null_when_missing_witness :
  let c := Demo.holding Demo.stale_no_refresh None 100 in
  refreshGrant Demo.X c =
    (Normal Null,
     with_trace Demo.X
       [LoggerVerbose "Grant token expired, refreshing.";
        LoggerError "Could not refresh token. Refresh token is missing."] c).
Proof.
  intros c. apply (refreshGrant_null_when_missing Demo.X c).
  right. exists 1%positive, Demo.stale_no_refresh. repeat split.
Defined.

Lemma initialize_idempotent_witness :
  initialize Demo.X (Demo.start true 0) = (Normal tt, Demo.initialized) /\
  initialize Demo.X (with_world Demo.X (Demo.at_time 100) Demo.initialized)
  = (Normal tt, with_world Demo.X (Demo.at_time 100) Demo.initialized).
Proof.
  split; [reflexivity|].
  apply (initialize_idempotent Demo.X (Demo.start true 0)). reflexivity.
Defined.

Lemma refreshGrant_refresh_sets_bearer_witness :
  let c := Demo.holding Demo.stale (Some Demo.app_client) 100 in
  exists l' c',
    refreshGrant Demo.X c = (Normal (Ref l'), c') /\
    tokenSet (this c') = Some l' /\
    heap c !! l' = None /\
    heap c' !! l' =
      Some {| access_token := Some "access-2"; refresh_token := Some "refresh-2";
              expires_at := Some 160%Z |} /\
    accessToken (client (this c')) = Some "access-2" /\
    world c' = Demo.at_time 100 /\
    trace c' = (trace c ++ [LoggerVerbose "Grant token expired, refreshing.";
                            IssuerClientRefresh "refresh-0";
                            ClientSetAccessToken "access-2"])%list.
Proof.
  intros c.
  apply (refreshGrant_refresh_sets_bearer Demo.X c 1%positive Demo.stale
           "refresh-0" Demo.app_client _ (Demo.at_time 100) "access-2");
    first [ reflexivity | discriminate ].
Defined.


Lemma tokenSet_replaced_wholesale_witness :
  let c := with_world Demo.X (Demo.at_time 100) Demo.initialized in
  (forall l ts,
      heap c !! l = Some ts -> heap (exec Demo.X RefreshGrant c) !! l = Some ts) /\
  (tokenSet (this (exec Demo.X RefreshGrant c)) = tokenSet (this c) \/
   exists l ts,
     tokenSet (this (exec Demo.X RefreshGrant c)) = Some l /\
     heap c !! l = None /\
     heap (exec Demo.X RefreshGrant c) !! l = Some ts).
Proof.
  exact (tokenSet_replaced_wholesale Demo.X Demo.opts Demo.initialized
           (Demo.at_time 100) RefreshGrant Demo_reachable_initialized).
Defined.

Lemma options_immutable_witness : options (this Demo.initialized) = Demo.opts.
Proof.
  exact (options_immutable Demo.X Demo.opts Demo.initialized
           Demo_reachable_initialized).
Defined.

Lemma refreshGrant_without_issuer_client_witness :
  let c := Demo.holding Demo.stale None 100 in
  refreshGrant Demo.X c =
    (Normal Undefined,
     {| this := set_tokenSet None (this c);
        heap := heap c;
        world := world c;
        trace := trace c ++ [LoggerVerbose "Grant token expired, refreshing."] |}).
Proof.
  intros c.
  apply (refreshGrant_without_issuer_client Demo.X c 1%positive Demo.stale);
    reflexivity.
Defined.

Lemma initialize_failure_is_permanent_witness :
  let c2 := exec Demo.X RefreshGrant (with_world Demo.X (Demo.at_time 5) Demo.failed) in
  initialize Demo.X (Demo.start false 0) = (Throw (Error "401"), Demo.failed) /\
  initialize Demo.X (with_world Demo.X (Demo.at_time 9) c2)
  = (Normal tt, with_world Demo.X (Demo.at_time 9) c2) /\
  tokenSet (this c2) = None.
Proof.
  intros c2. split; [reflexivity|].
  apply (initialize_failure_is_permanent Demo.X (Demo.start false 0)
           (Error "401") Demo.failed c2 (Demo.at_time 9)).
  - reflexivity.
  - reflexivity.
  - vm_compute. eauto.
  - apply later_exec, later_now.
Defined.

Lemma Flaky_reachable_initialized :
  reachable Flaky.X Demo.opts Flaky.initialized.
Proof.
  exists Demo.service, ∅, ([] : World Flaky.X).
  split; [reflexivity|]. apply later_exec, later_now.
Defined.

Lemma initialize_complete_witness :
  let c := Demo.start true 0 in
  exists c',
    initialize Demo.X c = (Normal tt, c') /\
    umaConfiguration (this c') = Some Demo.uma /\
    resourceManager (this c')
      = Some {| rsm_endpoint := resource_registration_endpoint Demo.uma |} /\
    permissionManager (this c')
      = Some {| pm_endpoint := token_endpoint Demo.uma |} /\
    client (this c') = setAccessToken (client (this c)) "admin-0" /\
    issuerClient (this c') = Some Demo.app_client /\
    tokenSet (this c') = Some (fresh (dom (heap c))) /\
    heap c' =
      <[fresh (dom (heap c)) :=
          {| access_token := Some "access-1"; refresh_token := Some "refresh-1";
             expires_at := Some 60%Z |}]> (heap c) /\
    world c' = Demo.at_time 0.
Proof.
  intros c.
  apply (initialize_complete Demo.X c Demo.uma (Demo.at_time 0)
           (setAccessToken (client (this c)) "admin-0") (Demo.at_time 0)
           (issuer Demo.uma) (Demo.at_time 0) Demo.app_client _ (Demo.at_time 0));
    reflexivity.
Defined.

Lemma initialize_fetch_rejected_witness :
  initialize Flaky.X (Flaky.start [false]) =
    (Throw (Error "ECONNREFUSED"),
     {| this := Demo.service; heap := ∅; world := ([] : World Flaky.X);
        trace := [RequestManagerGet "/.well-known/uma2-configuration"] |}).
Proof.
  apply (initialize_fetch_rejected Flaky.X (Flaky.start [false])); reflexivity.
Defined.

Lemma initialize_throws_what_a_call_threw_witness :
  initialize Demo.X (Demo.start false 0) = (Throw (Error "401"), Demo.failed) /\
  ((exists w, fst (requestManager_get Demo.X (requestManager Demo.service)
                     "/.well-known/uma2-configuration" w) = Throw (Error "401")) \/
   (exists a w, fst (client_auth Demo.X a "app" "s3cret"
                       "client_credentials" w) = Throw (Error "401")) \/
   (exists i w, fst (Issuer_discover Demo.X i w) = Throw (Error "401")) \/
   (exists i, Issuer_Client Demo.X i "app" "s3cret" = Throw (Error "401")) \/
   (exists k w, fst (issuerClient_grant Demo.X k "app" "s3cret"
                       "client_credentials" w) = Throw (Error "401"))).
Proof.
  split; [reflexivity|].
  apply (initialize_throws_what_a_call_threw Demo.X (Demo.start false 0)
           (Error "401") Demo.failed).
  reflexivity.
Defined.

Lemma refreshGrant_refresh_rejected_witness :
  refreshGrant Flaky.X (Flaky.holding [false]) =
    (Throw (Error "ECONNREFUSED"),
     {| this := this (Flaky.holding [false]);
        heap := heap (Flaky.holding [false]);
        world := ([] : World Flaky.X);
        trace := [LoggerVerbose "Grant token expired, refreshing.";
                  IssuerClientRefresh "refresh-0"] |}).
Proof.
  apply (refreshGrant_refresh_rejected Flaky.X (Flaky.holding [false])
           1%positive Demo.stale Demo.app_client);
    reflexivity.
Defined.

Lemma refreshGrant_refresh_without_access_token_witness :
  let c := Flaky.holding [true] in
  refreshGrant Flaky.X c =
    (Normal (Ref (fresh (dom (heap c)))),
     {| this := set_tokenSet (Some (fresh (dom (heap c)))) (this c);
        heap := <[fresh (dom (heap c)) :=
                    {| access_token := None; refresh_token := Some "refresh-2";
                       expires_at := None |}]> (heap c);
        world := ([] : World Flaky.X);
        trace := [LoggerVerbose "Grant token expired, refreshing.";
                  IssuerClientRefresh "refresh-0"] |}).
Proof.
  intros c.
  apply (refreshGrant_refresh_without_access_token Flaky.X c
           1%positive Demo.stale Demo.app_client);
    reflexivity.
Defined.

Lemma refreshGrant_returns_current_witness :
  let c := Demo.holding Demo.stale_no_refresh None 100 in
  let c' := with_trace Demo.X
              [LoggerVerbose "Grant token expired, refreshing.";
               LoggerError "Could not refresh token. Refresh token is missing."] c in
  refreshGrant Demo.X c = (Normal Null, c') /\
  this c' = this c /\ heap c' = heap c /\ world c' = world c.
Proof.
  intros c c'. split; [reflexivity|].
  apply (refreshGrant_returns_current Demo.X c Null c'). reflexivity.
Defined.

Lemma reachable_invariant_witness :
  managed (this Demo.initialized) /\
  (is_Some (tokenSet (this Demo.initialized)) ->
   is_Some (issuerClient (this Demo.initialized))) /\
  (forall l, tokenSet (this Demo.initialized) = Some l ->
             is_Some (heap Demo.initialized !! l)).
Proof.
  exact (reachable_invariant Demo.X Demo.opts Demo.initialized
           Demo_reachable_initialized).
Defined.

Lemma constructed_fields_fixed_witness :
  resolve Demo.X "http://kc" "/auth/realms/demo"
    = Normal (baseUrl (this Demo.initialized)) /\
  requestManager (this Demo.initialized)
    = {| rm_baseUrl := baseUrl (this Demo.initialized) |} /\
  resolve Demo.X "http://kc" "/auth"
    = Normal (auth_server_url (connect (this Demo.initialized))) /\
  connect (this Demo.initialized)
    = adapter_config Demo.opts (auth_server_url (connect (this Demo.initialized))).
Proof.
  exact (constructed_fields_fixed Demo.X Demo.opts Demo.initialized
           Demo_reachable_initialized).
Defined.

Lemma umaConfiguration_cached_witness :
  umaConfiguration (this Demo.initialized) = Some Demo.uma /\
  umaConfiguration
    (this (exec Demo.X RefreshGrant
             (with_world Demo.X (Demo.at_time 100) Demo.initialized)))
  = Some Demo.uma.
Proof.
  split; [reflexivity|].
  apply (umaConfiguration_cached Demo.X Demo.initialized).
  - apply later_exec, later_now.
  - reflexivity.
Defined.

Lemma refreshGrant_never_undefined_witness :
  fst (refreshGrant Demo.X (with_world Demo.X (Demo.at_time 100) Demo.initialized))
  <> Normal Undefined.
Proof.
  exact (refreshGrant_never_undefined Demo.X Demo.opts Demo.initialized
           (Demo.at_time 100) Demo_reachable_initialized).
Defined.

Lemma refreshGrant_throws_what_refresh_threw_witness :
  let c := Flaky.initialized in
  let w : World Flaky.X := [false] in
  let c1 : Config Flaky.X :=
    {| this := this c; heap := heap c; world := ([] : World Flaky.X);
       trace := trace c ++ [LoggerVerbose "Grant token expired, refreshing.";
                            IssuerClientRefresh "refresh-1"] |} in
  refreshGrant Flaky.X (with_world Flaky.X w c) = (Throw (Error "ECONNREFUSED"), c1) /\
  this c1 = this c /\ heap c1 = heap c /\
  exists cl rt w',
    issuerClient (this c) = Some cl /\
    issuerClient_refresh Flaky.X cl rt w = (Throw (Error "ECONNREFUSED"), w').
Proof.
  intros c w c1. split; [reflexivity|].
  apply (refreshGrant_throws_what_refresh_threw Flaky.X Demo.opts c w
           (Error "ECONNREFUSED") c1 Flaky_reachable_initialized).
  reflexivity.
Defined.

Lemma initialize_then_refreshGrant_witness :
  let c := Demo.start true 0 in
  let w := Demo.at_time 10 in
  let c1 := snd (initialize Demo.X c) in
  exists l granted,
    tokenSet (this c1) = Some l /\
    heap c !! l = None /\
    heap c1 !! l = Some granted /\
    (tokenSet_expired Demo.X granted w = false ->
     refreshGrant Demo.X (with_world Demo.X w c1)
     = (Normal (Ref l), with_world Demo.X w c1)).
Proof.
  intros c w.
  apply (initialize_then_refreshGrant Demo.X c w); reflexivity.
Defined.

Lemma refreshGrant_before_initialize_witness :
  let c : Config Demo.X :=
    exec Demo.X RefreshGrant (with_world Demo.X (Demo.at_time 3) (Demo.start true 0)) in
  umaConfiguration (this c) = None /\
  refreshGrant Demo.X (with_world Demo.X (Demo.at_time 7) c) =
    (Normal Null,
     {| this := this c; heap := heap c; world := Demo.at_time 7;
        trace := trace c
                   ++ [LoggerError "Token set is missing. Could not refresh grant."] |}).
Proof.
  intros c. split; [reflexivity|].
  apply (refreshGrant_before_initialize Demo.X Demo.opts c (Demo.at_time 7)).
  - exists Demo.service, ∅, (Demo.at_time 0).
    split; [reflexivity|]. apply later_exec, later_now.
  - reflexivity.
Defined.
